(** * safehttp: typed form accessors and status codes

    A shallow embedding of package [safehttp] (form.go and the status-code
    table) together with the properties of its getters.

    - Go's [int64] and [uint64] are integers of [Z] with the wrap-around
      written out where the code relies on it;
    - a Go slice is [option (list A)]: [None] is the [nil] slice, [Some l]
      a slice with the elements [l];
    - [map[string][]string] is a [gmap string (list string)];
    - an [error] value is an inhabitant of the inductive [error]; the
      interface value [nil] is [None : option error];
    - a method with receiver [f *Form] takes the form and gives back the
      form it leaves behind; indexing [vals[0]] on an empty slice is a
      run-time panic ([Panics]). *)

From Stdlib Require Import ZArith String Ascii List Bool Lia.
From Corelib Require Import SpecFloat.
From stdpp Require Import gmap strings list.

Local Open Scope string_scope.
Local Open Scope Z_scope.

(** ** Errors *)

(** The two sentinel errors of package strconv. *)
Inductive sentinel : Type :=
| ErrSyntax
| ErrRange.

(** The error values that reach the error slot of a [Form]:
    [*strconv.NumError], and the two messages built with [fmt.Errorf]
    (kept by their format argument). *)
Inductive error : Type :=
| NumError (Func Num : string) (Err : sentinel)
| ErrNotBoolean (paramKey : string)
| ErrTypeNotSupported (T : string).

#[global] Instance sentinel_eq_dec : EqDecision sentinel.
Proof. solve_decision. Defined.

#[global] Instance error_eq_dec : EqDecision error.
Proof. solve_decision. Defined.

(** ** Package strconv, at the arguments form.go passes

    [ParseUint s] is [strconv.ParseUint(s, 10, 64)] and [ParseInt s] is
    [strconv.ParseInt(s, 10, 64)]; both give the pair (value, error) of
    the Go function. *)
Module strconv.

Definition fnParseUint : string := "ParseUint".
Definition fnParseInt : string := "ParseInt".
Definition fnParseFloat : string := "ParseFloat".

Definition syntaxError (fn str : string) : error := NumError fn str ErrSyntax.
Definition rangeError (fn str : string) : error := NumError fn str ErrRange.

Definition maxUint64 : Z := 2 ^ 64 - 1.

(** The byte [c] as a decimal digit: ['0' <= c && c <= '9'], [d = c - '0'].
    In base 10 every other byte ends the scan with a syntax error: a
    letter gives a digit [>= 10], and ['_'] is accepted in base 0 only. *)
Definition digit (c : ascii) : option Z :=
  let n := Z.of_N (N_of_ascii c) in
  if (48 <=? n) && (n <=? 57) then Some (n - 48) else None.

(** The loop [for _, c := range []byte(s)] of ParseUint. *)
Fixpoint ParseUint_loop (s0 s : string) (n : Z) : Z * option error :=
  match s with
  | EmptyString => (n, None)
  | String c s' =>
      match digit c with
      | None => (0, Some (syntaxError fnParseUint s0))
      | Some d =>
          let cutoff := maxUint64 / 10 + 1 in
          let maxVal := 2 ^ 64 - 1 in
          if cutoff <=? n then (maxVal, Some (rangeError fnParseUint s0))
          else
            let n := n * 10 in
            let n1 := (n + d) mod 2 ^ 64 in
            if (n1 <? n) || (maxVal <? n1)
            then (maxVal, Some (rangeError fnParseUint s0))
            else ParseUint_loop s0 s' n1
      end
  end.

Definition ParseUint (s : string) : Z * option error :=
  match s with
  | EmptyString => (0, Some (syntaxError fnParseUint s))
  | _ => ParseUint_loop s s 0
  end.

(** Conversion [int64(x)] and negation on [int64]. *)
Definition int64 (x : Z) : Z := (x + 2 ^ 63) mod 2 ^ 64 - 2 ^ 63.

Definition ParseInt (s : string) : Z * option error :=
  match s with
  | EmptyString => (0, Some (syntaxError fnParseInt s))
  | String c rest =>
      let s0 := s in
      let '(neg, s) :=
        if Ascii.eqb c "+" then (false, rest)
        else if Ascii.eqb c "-" then (true, rest)
        else (false, s) in
      let '(un, err) := ParseUint s in
      match err with
      | Some (NumError _ _ ErrSyntax) => (0, Some (syntaxError fnParseInt s0))
      | _ =>
          let cutoff := 2 ^ 63 in
          if negb neg && (cutoff <=? un)
          then (cutoff - 1, Some (rangeError fnParseInt s0))
          else if neg && (cutoff <? un)
          then (- cutoff, Some (rangeError fnParseInt s0))
          else
            let n := int64 un in
            (if neg then int64 (- n) else n, None)
      end
  end.

End strconv.

(** ** A float parser to run the model with

    form.go calls [strconv.ParseFloat(s, 64)]; the development below is
    parametric in that function (see [Section Form]).  To evaluate the
    getters on concrete forms, [IntegerFloat.ParseFloat] implements
    ParseFloat on the optionally signed decimal integers, rounding to the
    nearest binary64 (ties to even) and reporting overflow as a range
    error with the infinity of that sign, as ParseFloat does; every other
    string is reported as a syntax error, which agrees with ParseFloat on
    the strings that are no float literal at all. *)
Module IntegerFloat.

Definition float64 : Type := spec_float.

(** The value of a non-empty string of decimal digits. *)
Fixpoint digits (s : string) (n : Z) : option Z :=
  match s with
  | EmptyString => Some n
  | String c s' =>
      match strconv.digit c with
      | None => None
      | Some d => digits s' (n * 10 + d)
      end
  end.

Definition ParseFloat (s : string) : float64 * option error :=
  let '(neg, body) :=
    match s with
    | String c rest =>
        if Ascii.eqb c "+" then (false, rest)
        else if Ascii.eqb c "-" then (true, rest)
        else (false, s)
    | EmptyString => (false, s)
    end in
  match body with
  | EmptyString => (S754_zero false, Some (strconv.syntaxError strconv.fnParseFloat s))
  | _ =>
      match digits body 0 with
      | None => (S754_zero false, Some (strconv.syntaxError strconv.fnParseFloat s))
      | Some m =>
          match binary_normalize 53 1024 (if neg then - m else m) 0 neg with
          | S754_infinity sg =>
              (S754_infinity sg, Some (strconv.rangeError strconv.fnParseFloat s))
          | x => (x, None)
          end
      end
  end.

End IntegerFloat.

(** ** Decimal numerals

    The decimal digits [ds], most significant first, written as a string,
    and the number they denote. *)
Definition digit_char (d : Z) : ascii := ascii_of_N (Z.to_N (48 + d)).

Fixpoint digits_string (ds : list Z) : string :=
  match ds with
  | [] => EmptyString
  | d :: ds' => String (digit_char d) (digits_string ds')
  end.

Definition digits_from (n : Z) (ds : list Z) : Z :=
  fold_left (fun n d => n * 10 + d) ds n.

Definition digits_value (ds : list Z) : Z := digits_from 0 ds.

Definition decimal_digits (ds : list Z) : Prop :=
  ds <> [] /\ Forall (fun d => 0 <= d <= 9) ds.

(** An optionally signed decimal numeral and the integer it denotes. *)
Inductive sign : Type :=
| NoSign
| Plus
| Minus.

Definition signed_string (sg : sign) (ds : list Z) : string :=
  match sg with
  | NoSign => digits_string ds
  | Plus => String "+" (digits_string ds)
  | Minus => String "-" (digits_string ds)
  end.

Definition signed_value (sg : sign) (ds : list Z) : Z :=
  match sg with
  | Minus => - digits_value ds
  | _ => digits_value ds
  end.

(** ** Status codes *)

(** [type StatusCode int]. *)
Definition StatusCode : Type := Z.

Definition StatusOK : StatusCode := 200.
Definition StatusMovedPermanently : StatusCode := 301.
Definition StatusBadRequest : StatusCode := 400.
Definition StatusUnauthorized : StatusCode := 401.
Definition StatusForbidden : StatusCode := 403.
Definition StatusInternalServerError : StatusCode := 500.

(** The [const ( ... )] block of the status-code file: every constant it
    declares, by name, in the order of the declarations. *)
Definition status_constants : list (string * StatusCode) :=
  [ ("StatusOK", StatusOK);
    ("StatusMovedPermanently", StatusMovedPermanently);
    ("StatusBadRequest", StatusBadRequest);
    ("StatusUnauthorized", StatusUnauthorized);
    ("StatusForbidden", StatusForbidden);
    ("StatusInternalServerError", StatusInternalServerError) ].

(** ** Forms *)

(** [type Form struct { values map[string][]string; err error }]. *)
Record Form : Type := mkForm {
  values : gmap string (list string);
  err : option error
}.

(** The assignment [f.err = e]. *)
Definition set_err (f : Form) (e : option error) : Form :=
  {| values := values f; err := e |}.

(** What a call of a method of [*Form] does: it returns [a] and leaves the
    form [f], or it panics. *)
Inductive outcome (A : Type) : Type :=
| Return (a : A) (f : Form)
| Panics.
Arguments Return {A} a f.
Arguments Panics {A}.

(** A Go slice: [None] is [nil]. *)
Definition slice (A : Type) : Type := option (list A).

(** The loop [for _, x := range mapVals] of a case of [Slice]: [conv] is
    the conversion of one value, [res] the slice built so far; the loop is
    left with the error of the first value that fails. *)
Fixpoint convert_loop {A : Type} (conv : string -> A * option error)
    (mapVals : list string) (res : list A) : error + list A :=
  match mapVals with
  | [] => inr res
  | x :: rest =>
      let '(x', err) := conv x in
      match err with
      | Some e => inl e
      | None => convert_loop conv rest (res ++ [x'])%list
      end
  end.

(** The [switch x] on a boolean token, in [Bool] and in the [*[]bool] case
    of [Slice]. *)
Definition parse_bool (paramKey x : string) : bool * option error :=
  if String.eqb x "true" then (true, None)
  else if String.eqb x "false" then (false, None)
  else (false, Some (ErrNotBoolean paramKey)).

(** Every key of the form has at least one value, as in the maps the
    parsing of a request builds. *)
Definition nonempty_values (f : Form) : Prop :=
  map_Forall (fun _ vals => vals <> []) (values f).

(** A parsed request to run the getters on. *)
Definition request_values : gmap string (list string) :=
  <["n" := ["42"; "7"]]> (<["bad" := ["abc"]]> (<["b" := ["true"]]>
  (<["off" := ["false"]]> (<["maybe" := ["maybe"]]>
  (<["xs" := ["1"; "2"; "x"]]> (<["ys" := ["1"; "2"; "3"]]>
  (<["flags" := ["true"; "false"; "true"]]> ∅))))))).

Definition request : Form := mkForm request_values None.

(** The same request after an earlier conversion failure. *)
Definition failed_request : Form :=
  mkForm request_values (Some (NumError "ParseInt" "abc" ErrSyntax)).

Section Form.

(** Go's [float64] and [strconv.ParseFloat(s, 64)], as (value, error). *)
Variable float64 : Type.
Variable ParseFloat : string -> float64 * option error.

(** The values of the dynamic types that [Slice] does not support. *)
Variable other : Type.

(** The argument [slicePtr interface{}] by dynamic type, with the slice
    the pointer points to; [PtrOther T v] is a value [v] of any other
    type, printed [T] by the verb [%T]. *)
Inductive slicePtr : Type :=
| PtrString (vs : slice string)
| PtrInt64 (vs : slice Z)
| PtrFloat64 (vs : slice float64)
| PtrUint64 (vs : slice Z)
| PtrBool (vs : slice bool)
| PtrOther (T : string) (v : other).

Definition Int64 (f : Form) (paramKey : string) (defaultValue : Z) : outcome Z :=
  match values f !! paramKey with
  | None => Return defaultValue f
  | Some [] => Panics
  | Some (v0 :: _) =>
      let '(paramVal, err) := strconv.ParseInt v0 in
      match err with
      | Some e => Return defaultValue (set_err f (Some e))
      | None => Return paramVal f
      end
  end.

Definition Uint64 (f : Form) (paramKey : string) (defaultValue : Z) : outcome Z :=
  match values f !! paramKey with
  | None => Return defaultValue f
  | Some [] => Panics
  | Some (v0 :: _) =>
      let '(paramVal, err) := strconv.ParseUint v0 in
      match err with
      | Some e => Return defaultValue (set_err f (Some e))
      | None => Return paramVal f
      end
  end.

Definition String (f : Form) (paramKey : string) (defaultValue : string)
    : outcome string :=
  match values f !! paramKey with
  | None => Return defaultValue f
  | Some [] => Panics
  | Some (v0 :: _) => Return v0 f
  end.

Definition Float64 (f : Form) (paramKey : string) (defaultValue : float64)
    : outcome float64 :=
  match values f !! paramKey with
  | None => Return defaultValue f
  | Some [] => Panics
  | Some (v0 :: _) =>
      let '(paramVal, err) := ParseFloat v0 in
      match err with
      | Some e => Return defaultValue (set_err f (Some e))
      | None => Return paramVal f
      end
  end.

Definition Bool (f : Form) (paramKey : string) (defaultValue : bool)
    : outcome bool :=
  match values f !! paramKey with
  | None => Return defaultValue f
  | Some [] => Panics
  | Some (v0 :: _) =>
      if String.eqb v0 "true" then Return true f
      else if String.eqb v0 "false" then Return false f
      else Return false (set_err f (Some (ErrNotBoolean paramKey)))
  end.

(** [clearSlice]: the pointer after the call, and the error returned. *)
Definition clearSlice (p : slicePtr) : slicePtr * option error :=
  match p with
  | PtrString _ => (PtrString None, None)
  | PtrInt64 _ => (PtrInt64 None, None)
  | PtrFloat64 _ => (PtrFloat64 None, None)
  | PtrUint64 _ => (PtrUint64 None, None)
  | PtrBool _ => (PtrBool None, None)
  | PtrOther T v => (PtrOther T v, Some (ErrTypeNotSupported T))
  end.

(** [Slice]: the pointer after the call, and the form. *)
Definition Slice (f : Form) (p : slicePtr) (paramKey : string)
    : slicePtr * Form :=
  match values f !! paramKey with
  | None =>
      let '(p', e) := clearSlice p in (p', set_err f e)
  | Some mapVals =>
      match p with
      | PtrString _ =>
          (PtrString (Some (fold_left (fun res x => (res ++ [x])%list) mapVals [])), f)
      | PtrInt64 _ =>
          match convert_loop strconv.ParseInt mapVals [] with
          | inl e => (PtrInt64 None, set_err f (Some e))
          | inr res => (PtrInt64 (Some res), f)
          end
      | PtrUint64 _ =>
          match convert_loop strconv.ParseUint mapVals [] with
          | inl e => (PtrUint64 None, set_err f (Some e))
          | inr res => (PtrUint64 (Some res), f)
          end
      | PtrFloat64 _ =>
          match convert_loop ParseFloat mapVals [] with
          | inl e => (PtrFloat64 None, set_err f (Some e))
          | inr res => (PtrFloat64 (Some res), f)
          end
      | PtrBool _ =>
          match convert_loop (parse_bool paramKey) mapVals [] with
          | inl e => (PtrBool None, set_err f (Some e))
          | inr res => (PtrBool (Some res), f)
          end
      | PtrOther _ _ =>
          let '(p', e) := clearSlice p in (p', set_err f e)
      end
  end.

Definition Err (f : Form) : option error := err f.

(** *** Sequences of calls *)

(** One call of a method of the form, with its arguments. *)
Inductive call : Type :=
| CallInt64 (paramKey : string) (defaultValue : Z)
| CallUint64 (paramKey : string) (defaultValue : Z)
| CallString (paramKey : string) (defaultValue : string)
| CallFloat64 (paramKey : string) (defaultValue : float64)
| CallBool (paramKey : string) (defaultValue : bool)
| CallSlice (p : slicePtr) (paramKey : string)
| CallErr.

Definition form_after {A : Type} (o : outcome A) : option Form :=
  match o with
  | Return _ f => Some f
  | Panics => None
  end.

(** The form a call leaves behind; [None] when the call panics. *)
Definition exec (c : call) (f : Form) : option Form :=
  match c with
  | CallInt64 k d => form_after (Int64 f k d)
  | CallUint64 k d => form_after (Uint64 f k d)
  | CallString k d => form_after (String f k d)
  | CallFloat64 k d => form_after (Float64 f k d)
  | CallBool k d => form_after (Bool f k d)
  | CallSlice p k => Some (snd (Slice f p k))
  | CallErr => Some f
  end.

(** The calls of [cs] one after the other, the first one first. *)
Fixpoint run (cs : list call) (f : Form) : option Form :=
  match cs with
  | [] => Some f
  | c :: cs' =>
      match exec c f with
      | Some f' => run cs' f'
      | None => None
      end
  end.

(** *** Nil pointers

    [slicePtr] describes a destination that exists.  The caller can also
    pass the nil pointer of one of the five supported pointer types;
    every path of [Slice] then stores through it ([*vs = nil] in
    [clearSlice] on an absent key, [*values = res] or [*values = nil] at
    the end of each case on a present key), which is a run-time panic. *)
Inductive pointerType : Type :=
| ToStrings
| ToInt64s
| ToFloat64s
| ToUint64s
| ToBools.

(** A call as the caller writes it: a call with its destination, or
    [Slice] on the nil pointer of type [T]. *)
Inductive invocation : Type :=
| Call (c : call)
| SliceNil (T : pointerType) (paramKey : string).

Definition nil_pointer (i : invocation) : bool :=
  match i with
  | SliceNil _ _ => true
  | Call _ => false
  end.

(** The form an invocation leaves behind; [None] when it panics. *)
Definition invoke (i : invocation) (f : Form) : option Form :=
  match i with
  | Call c => exec c f
  | SliceNil _ _ => None
  end.

Fixpoint invoke_all (l : list invocation) (f : Form) : option Form :=
  match l with
  | [] => Some f
  | i :: l' =>
      match invoke i f with
      | Some f' => invoke_all l' f'
      | None => None
      end
  end.

(** *** Vocabulary of the statements *)

(** The error of converting the value [x] to the element type of the
    destination [p]: [None] when [x] converts. *)
Definition elem_error (p : slicePtr) (paramKey x : string) : option error :=
  match p with
  | PtrInt64 _ => snd (strconv.ParseInt x)
  | PtrUint64 _ => snd (strconv.ParseUint x)
  | PtrFloat64 _ => snd (ParseFloat x)
  | PtrBool _ => snd (parse_bool paramKey x)
  | PtrString _ | PtrOther _ _ => None
  end.

(** The destination [p] holding the converted values of [mapVals]. *)
Definition converted (p : slicePtr) (paramKey : string)
    (mapVals : list string) : slicePtr :=
  match p with
  | PtrString _ => PtrString (Some mapVals)
  | PtrInt64 _ => PtrInt64 (Some (map (fun x => fst (strconv.ParseInt x)) mapVals))
  | PtrUint64 _ => PtrUint64 (Some (map (fun x => fst (strconv.ParseUint x)) mapVals))
  | PtrFloat64 _ => PtrFloat64 (Some (map (fun x => fst (ParseFloat x)) mapVals))
  | PtrBool _ => PtrBool (Some (map (fun x => fst (parse_bool paramKey x)) mapVals))
  | PtrOther T v => PtrOther T v
  end.

(** The destination [p] holding the [nil] slice. *)
Definition cleared (p : slicePtr) : slicePtr :=
  match p with
  | PtrString _ => PtrString None
  | PtrInt64 _ => PtrInt64 None
  | PtrFloat64 _ => PtrFloat64 None
  | PtrUint64 _ => PtrUint64 None
  | PtrBool _ => PtrBool None
  | PtrOther T v => PtrOther T v
  end.

(** The destination types [Slice] supports, and those among them whose
    element conversion can fail. *)
Definition supported (p : slicePtr) : bool :=
  match p with
  | PtrOther _ _ => false
  | _ => true
  end.

Definition converting (p : slicePtr) : bool :=
  match p with
  | PtrInt64 _ | PtrUint64 _ | PtrFloat64 _ | PtrBool _ => true
  | PtrString _ | PtrOther _ _ => false
  end.

(** The error of the first value of [l] that fails under [conv_err]. *)
Fixpoint first_error (conv_err : string -> option error) (l : list string)
    : option error :=
  match l with
  | [] => None
  | x :: rest =>
      match conv_err x with
      | Some e => Some e
      | None => first_error conv_err rest
      end
  end.

(** What a call assigns to [f.err], given the values of the form:
    [None] when the call does not assign, [Some e] when it assigns [e]
    (which is [nil] when [Slice] stores the result of [clearSlice]). *)
Definition written (c : call) (vals : gmap string (list string))
    : option (option error) :=
  match c with
  | CallInt64 k _ =>
      v0 ← vals !! k ≫= head; Some <$> snd (strconv.ParseInt v0)
  | CallUint64 k _ =>
      v0 ← vals !! k ≫= head; Some <$> snd (strconv.ParseUint v0)
  | CallFloat64 k _ =>
      v0 ← vals !! k ≫= head; Some <$> snd (ParseFloat v0)
  | CallBool k _ =>
      v0 ← vals !! k ≫= head; Some <$> snd (parse_bool k v0)
  | CallString _ _ | CallErr => None
  | CallSlice p k =>
      match vals !! k with
      | None => Some (snd (clearSlice p))
      | Some mapVals =>
          if supported p then Some <$> first_error (elem_error p k) mapVals
          else Some (snd (clearSlice p))
      end
  end.

(** The assignment of the last call of [cs] that assigns to [f.err]. *)
Fixpoint last_written (cs : list call) (vals : gmap string (list string))
    : option (option error) :=
  match cs with
  | [] => None
  | c :: cs' =>
      match last_written cs' vals with
      | Some w => Some w
      | None => written c vals
      end
  end.

(** What the caller gets back from a call: the value returned, when the
    call returns. *)
Definition returned {A : Type} (o : outcome A) : option A :=
  match o with
  | Return a _ => Some a
  | Panics => None
  end.

(** What the caller can see of a call: the value returned and what
    [Err()] gives afterwards. *)
Definition observed {A : Type} (o : outcome A) : option (A * option error) :=
  match o with
  | Return a f => Some (a, Err f)
  | Panics => None
  end.

(** The destination holds the [nil] slice. *)
Definition is_nil (p : slicePtr) : bool :=
  match p with
  | PtrString None | PtrInt64 None | PtrFloat64 None
  | PtrUint64 None | PtrBool None => true
  | _ => false
  end.

(** ** Properties *)

(** *** The conversion loop *)

Lemma convert_loop_first_error {A : Type} (conv : string -> A * option error)
    (l : list string) (res : list A) :
  convert_loop conv l res =
    match first_error (fun x => snd (conv x)) l with
    | Some e => inl e
    | None => inr (res ++ map (fun x => fst (conv x)) l)%list
    end.
Proof.
  revert res. induction l as [|x l IH]; intros res; simpl.
  - by rewrite app_nil_r.
  - destruct (conv x) as [x' [e|]]; simpl; [done|].
    rewrite IH. destruct (first_error _ l); [done|].
    by rewrite <- app_assoc.
Qed.

Lemma first_error_None (ce : string -> option error) (l : list string) :
  Forall (fun x => ce x = None) l -> first_error ce l = None.
Proof.
  induction 1 as [|x l Hx _ IH]; simpl; [done|]. by rewrite Hx.
Qed.

Lemma first_error_app (ce : string -> option error)
    (pre post : list string) (x : string) (e : error) :
  Forall (fun y => ce y = None) pre -> ce x = Some e ->
  first_error ce (pre ++ x :: post) = Some e.
Proof.
  induction 1 as [|y pre Hy _ IH]; intros Hx; simpl.
  - by rewrite Hx.
  - rewrite Hy. by apply IH.
Qed.

(** Some value fails: there is a first one. *)
Lemma first_failure (ce : string -> option error) (l : list string) :
  Exists (fun x => ce x <> None) l ->
  exists pre x post e,
    l = (pre ++ x :: post)%list /\ Forall (fun y => ce y = None) pre /\ ce x = Some e.
Proof.
  induction l as [|y l IH]; intros HE.
  - inversion HE.
  - destruct (ce y) as [e|] eqn:Hy.
    + exists [], y, l, e. by repeat split.
    + assert (Exists (fun x => ce x <> None) l) as HE'.
      { inversion HE; subst; [congruence | done]. }
      destruct (IH HE') as (pre & x & post & e & -> & Hpre & Hx).
      exists (y :: pre), x, post, e. repeat split; [by constructor | done].
Qed.

Lemma fold_left_snoc (l acc : list string) :
  fold_left (fun res x => (res ++ [x])%list) l acc = (acc ++ l)%list.
Proof.
  revert acc. induction l as [|x l IH]; intros acc; simpl.
  - by rewrite app_nil_r.
  - rewrite IH. by rewrite <- app_assoc.
Qed.

(** *** Scalar getters *)

(** C2 -- On a key that is absent from the values map, each of Int64,
    Uint64, String, Float64 and Bool returns the supplied default value
    and leaves the form, hence its error slot, as it was. *)
Theorem absent_key_returns_default (f : Form) (paramKey : string)
    (di du : Z) (ds : string) (df : float64) (db : bool) :
  values f !! paramKey = None ->
  Int64 f paramKey di = Return di f /\
  Uint64 f paramKey du = Return du f /\
  String f paramKey ds = Return ds f /\
  Float64 f paramKey df = Return df f /\
  Bool f paramKey db = Return db f.
Proof.
  intros H. unfold Int64, Uint64, String, Float64, Bool. by rewrite H.
Qed.

(** The numeric getters on a first value that does not parse: the
    error of the parser goes to the error slot and the default value is
    returned. *)
Lemma numeric_getters_failure (f : Form) (paramKey v0 : string)
    (rest : list string) (di du : Z) (df : float64) :
  values f !! paramKey = Some (v0 :: rest) ->
  (forall e, snd (strconv.ParseInt v0) = Some e ->
     Int64 f paramKey di = Return di (set_err f (Some e))) /\
  (forall e, snd (strconv.ParseUint v0) = Some e ->
     Uint64 f paramKey du = Return du (set_err f (Some e))) /\
  (forall e, snd (ParseFloat v0) = Some e ->
     Float64 f paramKey df = Return df (set_err f (Some e))).
Proof.
  intros H. unfold Int64, Uint64, Float64. rewrite H.
  repeat split; intros e He.
  - destruct (strconv.ParseInt v0) as [x o]; simpl in He. by subst o.
  - destruct (strconv.ParseUint v0) as [x o]; simpl in He. by subst o.
  - destruct (ParseFloat v0) as [x o]; simpl in He. by subst o.
Qed.

(** Bool on a first value that is neither token: the error slot is set
    and [false] is returned, whatever the default value. *)
Lemma Bool_invalid_token (f : Form) (paramKey v0 : string)
    (rest : list string) (defaultValue : bool) :
  values f !! paramKey = Some (v0 :: rest) ->
  v0 <> "true" -> v0 <> "false" ->
  Bool f paramKey defaultValue
  = Return false (set_err f (Some (ErrNotBoolean paramKey))).
Proof.
  intros H Ht Hf. unfold Bool. rewrite H.
  apply String.eqb_neq in Ht, Hf. by rewrite Ht, Hf.
Qed.

(** C7 -- On a present key, Bool returns true on the first value "true"
    and false on the first value "false", and leaves the form as it was;
    on every other first value it sets the error slot to the
    not-a-boolean error of the key. *)
Theorem Bool_tokens (f : Form) (paramKey v0 : string) (rest : list string)
    (defaultValue : bool) :
  values f !! paramKey = Some (v0 :: rest) ->
  (v0 = "true" -> Bool f paramKey defaultValue = Return true f) /\
  (v0 = "false" -> Bool f paramKey defaultValue = Return false f) /\
  (v0 <> "true" -> v0 <> "false" ->
     exists b f', Bool f paramKey defaultValue = Return b f' /\
       Err f' = Some (ErrNotBoolean paramKey) /\ values f' = values f).
Proof.
  intros H. repeat split.
  - intros ->. unfold Bool. by rewrite H.
  - intros ->. unfold Bool. by rewrite H.
  - intros Ht Hf. eexists _, _. split; [by eapply Bool_invalid_token|done].
Qed.

(** C10 -- On a key that is present with at least one value, String
    returns the first value as it is, and no call of String, on a present
    or an absent key, changes the form: the error slot is never
    written. *)
Theorem String_returns_first_value (f : Form) (paramKey v0 : string)
    (rest : list string) (defaultValue : string) :
  values f !! paramKey = Some (v0 :: rest) ->
  String f paramKey defaultValue = Return v0 f /\
  (forall g k d a g', String g k d = Return a g' -> g' = g).
Proof.
  intros H. split.
  - unfold String. by rewrite H.
  - intros g k d a g'. unfold String.
    destruct (values g !! k) as [[|x l]|]; congruence.
Qed.

(** On a present key with no value at all, [vals[0]] is out of range
    and the scalar getters panic. *)
Lemma scalar_getters_empty_list (f : Form) (paramKey : string)
    (di du : Z) (ds : string) (df : float64) (db : bool) :
  values f !! paramKey = Some [] ->
  Int64 f paramKey di = Panics /\
  Uint64 f paramKey du = Panics /\
  String f paramKey ds = Panics /\
  Float64 f paramKey df = Panics /\
  Bool f paramKey db = Panics.
Proof.
  intros H. unfold Int64, Uint64, String, Float64, Bool. by rewrite H.
Qed.

(** *** Slice *)

(** Slice on a present key and a supported destination, by the first
    conversion error of the values. *)
Lemma Slice_present (f : Form) (p : slicePtr) (paramKey : string)
    (mapVals : list string) :
  values f !! paramKey = Some mapVals -> supported p = true ->
  Slice f p paramKey =
    match first_error (elem_error p paramKey) mapVals with
    | Some e => (cleared p, set_err f (Some e))
    | None => (converted p paramKey mapVals, f)
    end.
Proof.
  intros H Hp. unfold Slice. rewrite H.
  destruct p as [vs|vs|vs|vs|vs|T v]; simpl in *; try discriminate;
    rewrite ?convert_loop_first_error, ?fold_left_snoc; simpl;
    try (by destruct (first_error _ mapVals)).
  rewrite first_error_None; [done|]. by apply Forall_true.
Qed.

(** C3 -- On a present key and a destination of type *[]int64,
    *[]uint64, *[]float64 or *[]bool, when some value of the list fails
    to convert, Slice leaves the destination nil and the error slot
    holding the error of the first value that fails: [Err()] returns that
    error after the call; the values before it converted, and none of
    them is kept. *)
Theorem Slice_conversion_failure (f : Form) (p : slicePtr)
    (paramKey : string) (mapVals : list string) :
  values f !! paramKey = Some mapVals ->
  converting p = true ->
  Exists (fun x => elem_error p paramKey x <> None) mapVals ->
  exists pre x post e,
    mapVals = (pre ++ x :: post)%list /\
    Forall (fun y => elem_error p paramKey y = None) pre /\
    elem_error p paramKey x = Some e /\
    Slice f p paramKey = (cleared p, set_err f (Some e)) /\
    is_nil (fst (Slice f p paramKey)) = true /\
    Err (snd (Slice f p paramKey)) = Some e /\
    values (snd (Slice f p paramKey)) = values f.
Proof.
  intros H Hp HE.
  destruct (first_failure _ _ HE) as (pre & x & post & e & Hl & Hpre & Hx).
  exists pre, x, post, e.
  assert (Slice f p paramKey = (cleared p, set_err f (Some e))) as HS.
  { rewrite (Slice_present f p paramKey mapVals H).
    - subst mapVals. by rewrite (first_error_app _ pre post x e Hpre Hx).
    - by destruct p. }
  rewrite HS. repeat split; try done. by destruct p.
Qed.

(** C4 -- On a present key and a supported destination type, when every
    value of the list converts, Slice leaves in the destination the
    converted values, in the order of the list, and leaves the form,
    hence its error slot, as it was.  For *[]bool the converted values
    are told by the tokens: true for "true" and false for "false", one
    for each value, in the order of the list. *)
Theorem Slice_all_converted (f : Form) (p : slicePtr)
    (paramKey : string) (mapVals : list string) :
  values f !! paramKey = Some mapVals ->
  supported p = true ->
  Forall (fun x => elem_error p paramKey x = None) mapVals ->
  Slice f p paramKey = (converted p paramKey mapVals, f) /\
  (forall vs, p = PtrString vs ->
     Slice f p paramKey = (PtrString (Some mapVals), f)) /\
  (forall vs bs, p = PtrBool vs ->
     Forall2 (fun x b => (x = "true" /\ b = true) \/ (x = "false" /\ b = false))
       mapVals bs ->
     Slice f p paramKey = (PtrBool (Some bs), f)).
Proof.
  intros H Hp Hall.
  assert (Slice f p paramKey = (converted p paramKey mapVals, f)) as HS.
  { rewrite (Slice_present f p paramKey mapVals H Hp).
    by rewrite (first_error_None _ _ Hall). }
  split; [done|]. split.
  - intros vs ->. by rewrite HS.
  - intros vs bs -> Hbs. rewrite HS. simpl. do 3 f_equal.
    clear -Hbs. induction Hbs as [|x b l bs [[-> ->]|[-> ->]] _ IH]; simpl;
      by rewrite ?IH.
Qed.

(** C5 -- On an absent key and a supported destination type, Slice
    leaves the destination nil and assigns nil to the error slot: Err
    returns nil after the call, whatever the slot held before. *)
Theorem Slice_absent_key (f : Form) (p : slicePtr) (paramKey : string) :
  values f !! paramKey = None ->
  supported p = true ->
  Slice f p paramKey = (cleared p, set_err f None) /\
  Err (snd (Slice f p paramKey)) = None.
Proof.
  intros H Hp. unfold Slice. rewrite H.
  by destruct p; simpl in *.
Qed.

(** C6 -- On a destination of any other dynamic type, Slice, on a
    present key as on an absent one, assigns the type-not-supported
    error to the error slot, so that [Err()] returns it after the call,
    and leaves the destination as it was. *)
Theorem Slice_unsupported_type (f : Form) (T : string) (v : other)
    (paramKey : string) :
  Slice f (PtrOther T v) paramKey
  = (PtrOther T v, set_err f (Some (ErrTypeNotSupported T))) /\
  fst (Slice f (PtrOther T v) paramKey) = PtrOther T v /\
  Err (snd (Slice f (PtrOther T v) paramKey)) = Some (ErrTypeNotSupported T) /\
  values (snd (Slice f (PtrOther T v) paramKey)) = values f.
Proof.
  unfold Slice. by destruct (values f !! paramKey).
Qed.

(** *** The error slot *)

(** A call changes nothing but the error slot, and the slot only by
    the assignment [written] gives. *)
Lemma exec_written (c : call) (f f' : Form) :
  exec c f = Some f' ->
  f' = match written c (values f) with
       | Some e => set_err f e
       | None => f
       end.
Proof.
  destruct c as [k d|k d|k d|k d|k d|p k|]; simpl.
  - unfold Int64. destruct (values f !! k) as [[|v0 l]|]; simpl; try congruence.
    destruct (strconv.ParseInt v0) as [x [e|]]; simpl; congruence.
  - unfold Uint64. destruct (values f !! k) as [[|v0 l]|]; simpl; try congruence.
    destruct (strconv.ParseUint v0) as [x [e|]]; simpl; congruence.
  - unfold String. destruct (values f !! k) as [[|v0 l]|]; simpl; congruence.
  - unfold Float64. destruct (values f !! k) as [[|v0 l]|]; simpl; try congruence.
    destruct (ParseFloat v0) as [x [e|]]; simpl; congruence.
  - unfold Bool, parse_bool.
    destruct (values f !! k) as [[|v0 l]|]; simpl; try congruence.
    destruct (String.eqb v0 "true"); simpl; [congruence|].
    destruct (String.eqb v0 "false"); simpl; congruence.
  - intros [= <-]. destruct (values f !! k) as [mapVals|] eqn:H.
    + destruct (supported p) eqn:Hp.
      * rewrite (Slice_present f p k mapVals H Hp).
        by destruct (first_error _ mapVals).
      * destruct p; try discriminate. unfold Slice. by rewrite H.
    + unfold Slice. rewrite H. by destruct (clearSlice p).
  - congruence.
Qed.

(** On a form whose keys all have a value no call panics, and the form
    after the call is such a form again. *)
Lemma exec_returns (c : call) (f : Form) :
  nonempty_values f ->
  exists f', exec c f = Some f' /\ nonempty_values f'.
Proof.
  intros Hf.
  assert (forall k, values f !! k <> Some []) as Hk.
  { intros k Hl. by apply (Hf k [] Hl). }
  destruct (exec c f) as [f'|] eqn:Hc.
  - exists f'. split; [done|]. apply exec_written in Hc. subst f'.
    by destruct (written c (values f)).
  - exfalso. destruct c as [k d|k d|k d|k d|k d|p k|]; simpl in Hc;
      try discriminate; specialize (Hk k).
    + unfold Int64 in Hc. destruct (values f !! k) as [[|v0 l]|]; try done.
      by destruct (strconv.ParseInt v0) as [x [e|]].
    + unfold Uint64 in Hc. destruct (values f !! k) as [[|v0 l]|]; try done.
      by destruct (strconv.ParseUint v0) as [x [e|]].
    + unfold String in Hc. by destruct (values f !! k) as [[|v0 l]|].
    + unfold Float64 in Hc. destruct (values f !! k) as [[|v0 l]|]; try done.
      by destruct (ParseFloat v0) as [x [e|]].
    + unfold Bool in Hc. destruct (values f !! k) as [[|v0 l]|]; try done.
      destruct (String.eqb v0 "true"); [done|].
      by destruct (String.eqb v0 "false").
Qed.

Lemma run_returns (cs : list call) (f : Form) :
  nonempty_values f -> exists f', run cs f = Some f'.
Proof.
  revert f. induction cs as [|c cs IH]; intros f Hf; simpl.
  - by exists f.
  - destruct (exec_returns c f Hf) as (f1 & -> & Hf1). by apply IH.
Qed.

(** C9 -- After a sequence of calls the error slot holds what the last
    call that assigned to it assigned, and what it held before the
    sequence when no call assigned: an assignment replaces the content
    of the slot and owes nothing to it. The values map is the one the
    sequence started with. *)
Theorem last_error_wins (cs : list call) (f f' : Form) :
  run cs f = Some f' ->
  Err f' = match last_written cs (values f) with
           | Some e => e
           | None => Err f
           end /\
  values f' = values f.
Proof.
  revert f. induction cs as [|c cs IH]; intros f; simpl.
  - by intros [= <-].
  - destruct (exec c f) as [f1|] eqn:Hc; [|done].
    intros Hrun. destruct (IH _ Hrun) as [He Hv].
    apply exec_written in Hc.
    assert (values f1 = values f) as Hv1.
    { subst f1. by destruct (written c (values f)). }
    rewrite Hv1 in He. rewrite He, Hv, Hv1. split; [|done].
    destruct (last_written cs (values f)); [done|].
    subst f1. by destruct (written c (values f)).
Qed.

(** *** What the getters depend on *)

(** A call changes nothing but the error slot. *)
Lemma exec_values (c : call) (f f' : Form) :
  exec c f = Some f' -> values f' = values f.
Proof.
  intros Hc. apply exec_written in Hc. subst f'.
  by destruct (written c (values f)).
Qed.

Lemma run_values (cs : list call) (f f' : Form) :
  run cs f = Some f' -> values f' = values f.
Proof.
  revert f. induction cs as [|c cs IH]; intros f; simpl.
  - by intros [= <-].
  - destruct (exec c f) as [f1|] eqn:Hc; [|done].
    intros Hrun. rewrite (IH _ Hrun). by apply exec_values in Hc.
Qed.

(** The value a scalar getter returns, and the destination Slice leaves,
    are read off the values map alone. *)
Lemma results_by_values (f g : Form) (k : string) :
  values f = values g ->
  (forall d, returned (Int64 f k d) = returned (Int64 g k d)) /\
  (forall d, returned (Uint64 f k d) = returned (Uint64 g k d)) /\
  (forall d, returned (String f k d) = returned (String g k d)) /\
  (forall d, returned (Float64 f k d) = returned (Float64 g k d)) /\
  (forall d, returned (Bool f k d) = returned (Bool g k d)) /\
  (forall p, fst (Slice f p k) = fst (Slice g p k)).
Proof.
  intros Hv. unfold Int64, Uint64, String, Float64, Bool, Slice. rewrite Hv.
  repeat split; intros d.
  - destruct (values g !! k) as [[|v0 l]|]; try done.
    by destruct (strconv.ParseInt v0) as [x [e|]].
  - destruct (values g !! k) as [[|v0 l]|]; try done.
    by destruct (strconv.ParseUint v0) as [x [e|]].
  - by destruct (values g !! k) as [[|v0 l]|].
  - destruct (values g !! k) as [[|v0 l]|]; try done.
    by destruct (ParseFloat v0) as [x [e|]].
  - destruct (values g !! k) as [[|v0 l]|]; try done.
    destruct (String.eqb v0 "true"); [done|].
    by destruct (String.eqb v0 "false").
  - destruct (values g !! k) as [mapVals|].
    + destruct d as [vs|vs|vs|vs|vs|T v]; simpl; try done.
      * by destruct (convert_loop strconv.ParseInt mapVals []).
      * by destruct (convert_loop ParseFloat mapVals []).
      * by destruct (convert_loop strconv.ParseUint mapVals []).
      * by destruct (convert_loop (parse_bool k) mapVals []).
    + by destruct (clearSlice d).
Qed.

(** X1 -- Wherever a getter is called in a sequence of calls, it returns
    the value it would have returned before the sequence, and Slice leaves
    the same destination: no call changes the values, and no getter reads
    the error slot. *)
Theorem results_stable_in_sequence (cs : list call) (f f' : Form)
    (k : string) :
  run cs f = Some f' ->
  (forall d, returned (Int64 f' k d) = returned (Int64 f k d)) /\
  (forall d, returned (Uint64 f' k d) = returned (Uint64 f k d)) /\
  (forall d, returned (String f' k d) = returned (String f k d)) /\
  (forall d, returned (Float64 f' k d) = returned (Float64 f k d)) /\
  (forall d, returned (Bool f' k d) = returned (Bool f k d)) /\
  (forall p, fst (Slice f' p k) = fst (Slice f p k)).
Proof.
  intros Hrun. apply results_by_values. by apply run_values in Hrun.
Qed.

(** X2 -- On a present key with a first value that parses, Int64, Uint64
    and Float64 return the parsed value and leave the form as it was: a
    successful call does not clear an error recorded earlier. *)
Theorem numeric_getters_success (f : Form) (paramKey v0 : string)
    (rest : list string) (di du : Z) (df : float64) :
  values f !! paramKey = Some (v0 :: rest) ->
  (snd (strconv.ParseInt v0) = None ->
     Int64 f paramKey di = Return (fst (strconv.ParseInt v0)) f) /\
  (snd (strconv.ParseUint v0) = None ->
     Uint64 f paramKey du = Return (fst (strconv.ParseUint v0)) f) /\
  (snd (ParseFloat v0) = None ->
     Float64 f paramKey df = Return (fst (ParseFloat v0)) f).
Proof.
  intros H. unfold Int64, Uint64, Float64. rewrite H.
  repeat split; intros He.
  - destruct (strconv.ParseInt v0) as [x o]; simpl in *. by subst o.
  - destruct (strconv.ParseUint v0) as [x o]; simpl in *. by subst o.
  - destruct (ParseFloat v0) as [x o]; simpl in *. by subst o.
Qed.

(** X3 -- A scalar getter looks at the first value of the key only: on two
    forms whose lists for the key start with the same value, and whose
    error slots agree, it returns the same value and leaves the same
    error. *)
Theorem scalar_getters_first_value_only (f g : Form) (paramKey v0 : string)
    (rest rest' : list string) :
  values f !! paramKey = Some (v0 :: rest) ->
  values g !! paramKey = Some (v0 :: rest') ->
  Err f = Err g ->
  (forall d, observed (Int64 f paramKey d) = observed (Int64 g paramKey d)) /\
  (forall d, observed (Uint64 f paramKey d) = observed (Uint64 g paramKey d)) /\
  (forall d, observed (String f paramKey d) = observed (String g paramKey d)) /\
  (forall d, observed (Float64 f paramKey d) = observed (Float64 g paramKey d)) /\
  (forall d, observed (Bool f paramKey d) = observed (Bool g paramKey d)).
Proof.
  intros Hf Hg He. unfold Int64, Uint64, String, Float64, Bool.
  rewrite Hf, Hg. repeat split; intros d; simpl.
  - destruct (strconv.ParseInt v0) as [x [e|]]; simpl; congruence.
  - destruct (strconv.ParseUint v0) as [x [e|]]; simpl; congruence.
  - congruence.
  - destruct (ParseFloat v0) as [x [e|]]; simpl; congruence.
  - destruct (String.eqb v0 "true"); simpl; [congruence|].
    destruct (String.eqb v0 "false"); simpl; congruence.
Qed.

(** X4 -- A scalar getter panics exactly on a key that is present with an
    empty list of values. *)
Theorem scalar_getters_panic_iff (f : Form) (paramKey : string)
    (di du : Z) (ds : string) (df : float64) (db : bool) :
  (Int64 f paramKey di = Panics <-> values f !! paramKey = Some []) /\
  (Uint64 f paramKey du = Panics <-> values f !! paramKey = Some []) /\
  (String f paramKey ds = Panics <-> values f !! paramKey = Some []) /\
  (Float64 f paramKey df = Panics <-> values f !! paramKey = Some []) /\
  (Bool f paramKey db = Panics <-> values f !! paramKey = Some []).
Proof.
  unfold Int64, Uint64, String, Float64, Bool.
  destruct (values f !! paramKey) as [[|v0 l]|]; repeat split; try done.
  - by destruct (strconv.ParseInt v0) as [x [e|]].
  - by destruct (strconv.ParseUint v0) as [x [e|]].
  - by destruct (ParseFloat v0) as [x [e|]].
  - destruct (String.eqb v0 "true"); [done|].
    by destruct (String.eqb v0 "false").
Qed.

(** *** More on Slice *)

Lemma first_error_Exists (ce : string -> option error) (l : list string) :
  (exists e, first_error ce l = Some e) <-> Exists (fun x => ce x <> None) l.
Proof.
  induction l as [|x l IH]; simpl.
  - split; [by intros [e ?] | by inversion 1].
  - destruct (ce x) as [e|] eqn:Hx.
    + split; [|by eauto]. intros _. apply Exists_cons_hd. congruence.
    + rewrite IH. split; [by apply Exists_cons_tl|].
      inversion 1; subst; [congruence | done].
Qed.

(** X5 -- Slice does not look at what the destination holds: the call
    gives the same destination and the same form as on the nil slice of
    that type; nothing of the old content is kept or appended to. *)
Theorem Slice_ignores_old_content (f : Form) (p : slicePtr)
    (paramKey : string) :
  Slice f p paramKey = Slice f (cleared p) paramKey.
Proof.
  unfold Slice. destruct (values f !! paramKey); by destruct p.
Qed.

(** X6 -- Slice is idempotent: calling it again with the destination and
    the form of a first call, on the same key, changes neither. *)
Theorem Slice_idempotent (f : Form) (p : slicePtr) (paramKey : string) :
  Slice (snd (Slice f p paramKey)) (fst (Slice f p paramKey)) paramKey
  = Slice f p paramKey.
Proof.
  destruct (values f !! paramKey) as [mapVals|] eqn:H.
  - destruct (supported p) eqn:Hp.
    + rewrite (Slice_present f p paramKey mapVals H Hp).
      destruct (first_error (elem_error p paramKey) mapVals) as [e|] eqn:He;
        simpl.
      * rewrite (Slice_present (set_err f (Some e)) (cleared p) paramKey mapVals);
          [|done|by destruct p].
        replace (first_error (elem_error (cleared p) paramKey) mapVals)
          with (Some e) by (by destruct p).
        by destruct p.
      * rewrite (Slice_present f (converted p paramKey mapVals) paramKey mapVals);
          [|done|by destruct p].
        replace (first_error (elem_error (converted p paramKey mapVals) paramKey)
                   mapVals)
          with (@None error) by (by destruct p).
        by destruct p.
    + destruct p; try discriminate. unfold Slice. rewrite H. simpl. by rewrite H.
  - unfold Slice. rewrite H. destruct p; simpl; by rewrite H.
Qed.

(** X7 -- Slice and the scalar getters agree on success: when Slice
    leaves a slice with at least one element, the scalar getter of the
    element type returns the first element of that slice and leaves the
    form as it was. *)
Theorem scalar_getter_is_head_of_Slice (f : Form) (paramKey : string) :
  (forall vs x xs f' d,
     Slice f (PtrString vs) paramKey = (PtrString (Some (x :: xs)), f') ->
     String f paramKey d = Return x f) /\
  (forall vs x xs f' d,
     Slice f (PtrInt64 vs) paramKey = (PtrInt64 (Some (x :: xs)), f') ->
     Int64 f paramKey d = Return x f) /\
  (forall vs x xs f' d,
     Slice f (PtrUint64 vs) paramKey = (PtrUint64 (Some (x :: xs)), f') ->
     Uint64 f paramKey d = Return x f) /\
  (forall vs x xs f' d,
     Slice f (PtrFloat64 vs) paramKey = (PtrFloat64 (Some (x :: xs)), f') ->
     Float64 f paramKey d = Return x f) /\
  (forall vs x xs f' d,
     Slice f (PtrBool vs) paramKey = (PtrBool (Some (x :: xs)), f') ->
     Bool f paramKey d = Return x f).
Proof.
  destruct (values f !! paramKey) as [[|v0 rest]|] eqn:H.
  - repeat split; intros vs x xs f' d;
      by rewrite (Slice_present f _ paramKey [] H).
  - repeat split; intros vs x xs f' d;
      rewrite (Slice_present f _ paramKey (v0 :: rest) H) by done; simpl.
    + rewrite first_error_None by (by apply Forall_true).
      intros [= <- _ _]. unfold String. by rewrite H.
    + unfold Int64. rewrite H.
      destruct (strconv.ParseInt v0) as [y [e|]]; simpl; [done|].
      destruct (first_error _ rest); [done|]. by intros [= <- _ _].
    + unfold Uint64. rewrite H.
      destruct (strconv.ParseUint v0) as [y [e|]]; simpl; [done|].
      destruct (first_error _ rest); [done|]. by intros [= <- _ _].
    + unfold Float64. rewrite H.
      destruct (ParseFloat v0) as [y [e|]]; simpl; [done|].
      destruct (first_error _ rest); [done|]. by intros [= <- _ _].
    + unfold Bool, parse_bool. rewrite H.
      destruct (String.eqb v0 "true"); simpl.
      { destruct (first_error _ rest); [done|]. by intros [= <- _ _]. }
      destruct (String.eqb v0 "false"); simpl; [|done].
      destruct (first_error _ rest); [done|]. by intros [= <- _ _].
  - repeat split; intros vs x xs f' d; unfold Slice; by rewrite H.
Qed.

(** X8 -- Slice and the scalar getters agree on failure: when a scalar
    getter records an error on a form whose error slot was clear, Slice
    into a slice of that element type, on the same key, leaves the nil
    slice and the very form the getter left. *)
Theorem Slice_fails_where_scalar_getter_fails (f : Form)
    (paramKey v0 : string) (rest : list string) :
  values f !! paramKey = Some (v0 :: rest) ->
  Err f = None ->
  (forall d a f' e vs, Int64 f paramKey d = Return a f' -> Err f' = Some e ->
     Slice f (PtrInt64 vs) paramKey = (PtrInt64 None, f')) /\
  (forall d a f' e vs, Uint64 f paramKey d = Return a f' -> Err f' = Some e ->
     Slice f (PtrUint64 vs) paramKey = (PtrUint64 None, f')) /\
  (forall d a f' e vs, Float64 f paramKey d = Return a f' -> Err f' = Some e ->
     Slice f (PtrFloat64 vs) paramKey = (PtrFloat64 None, f')) /\
  (forall d a f' e vs, Bool f paramKey d = Return a f' -> Err f' = Some e ->
     Slice f (PtrBool vs) paramKey = (PtrBool None, f')).
Proof.
  intros H Hclear. repeat split; intros d a f' e vs;
    rewrite (Slice_present f _ paramKey (v0 :: rest) H) by done; simpl.
  - unfold Int64. rewrite H.
    destruct (strconv.ParseInt v0) as [x [e'|]]; simpl; intros [= <- <-]; [done|].
    unfold Err in *. congruence.
  - unfold Uint64. rewrite H.
    destruct (strconv.ParseUint v0) as [x [e'|]]; simpl; intros [= <- <-]; [done|].
    unfold Err in *. congruence.
  - unfold Float64. rewrite H.
    destruct (ParseFloat v0) as [x [e'|]]; simpl; intros [= <- <-]; [done|].
    unfold Err in *. congruence.
  - unfold Bool, parse_bool. rewrite H.
    destruct (String.eqb v0 "true"); simpl.
    { intros [= <- <-]. unfold Err in *. congruence. }
    destruct (String.eqb v0 "false"); simpl; intros [= <- <-]; [|done].
    unfold Err in *. congruence.
Qed.

(** X9 -- On a present key and a supported destination type, the
    destination is nil after Slice exactly when some value of the list
    fails to convert; a nil destination comes with an error in the error
    slot, a non-nil one with the form as it was. *)
Theorem Slice_nil_iff_failure (f : Form) (p : slicePtr) (paramKey : string)
    (mapVals : list string) :
  values f !! paramKey = Some mapVals ->
  supported p = true ->
  (is_nil (fst (Slice f p paramKey)) = true <->
     Exists (fun x => elem_error p paramKey x <> None) mapVals) /\
  (is_nil (fst (Slice f p paramKey)) = true ->
     Err (snd (Slice f p paramKey)) <> None) /\
  (is_nil (fst (Slice f p paramKey)) = false ->
     snd (Slice f p paramKey) = f).
Proof.
  intros H Hp. rewrite (Slice_present f p paramKey mapVals H Hp).
  rewrite <- first_error_Exists.
  destruct (first_error (elem_error p paramKey) mapVals) as [e|]; simpl.
  - replace (is_nil (cleared p)) with true by (by destruct p).
    repeat split; try done. by eauto.
  - replace (is_nil (converted p paramKey mapVals)) with false
      by (by destruct p).
    repeat split; try done. by intros [e ?].
Qed.

(** *** More on the error slot *)

(** The only assignment of nil is that of Slice on an absent key and a
    supported destination type. *)
Lemma written_nil (c : call) (vals : gmap string (list string)) :
  written c vals = Some None ->
  exists p k, c = CallSlice p k /\ vals !! k = None /\ supported p = true.
Proof.
  destruct c as [k d|k d|k d|k d|k d|p k|]; simpl; try done.
  - destruct (vals !! k ≫= head) as [v0|]; simpl; [|done].
    by destruct (snd (strconv.ParseInt v0)).
  - destruct (vals !! k ≫= head) as [v0|]; simpl; [|done].
    by destruct (snd (strconv.ParseUint v0)).
  - destruct (vals !! k ≫= head) as [v0|]; simpl; [|done].
    by destruct (snd (ParseFloat v0)).
  - destruct (vals !! k ≫= head) as [v0|]; simpl; [|done].
    by destruct (snd (parse_bool k v0)).
  - destruct (vals !! k) as [mapVals|] eqn:H.
    + destruct (supported p) eqn:Hp.
      * by destruct (first_error (elem_error p k) mapVals).
      * by destruct p.
    + intros Hw. exists p, k. repeat split; [done|]. by destruct p.
Qed.

(** A call that assigns to the error slot returns. *)
Lemma written_returns (c : call) (f : Form) (w : option error) :
  written c (values f) = Some w -> exists g, exec c f = Some g.
Proof.
  destruct c as [k d|k d|k d|k d|k d|p k|]; simpl; try done; [| | | |by eauto].
  - unfold Int64. destruct (values f !! k) as [[|v0 l]|]; simpl; try done.
    destruct (strconv.ParseInt v0) as [x [e|]]; simpl; by eauto.
  - unfold Uint64. destruct (values f !! k) as [[|v0 l]|]; simpl; try done.
    destruct (strconv.ParseUint v0) as [x [e|]]; simpl; by eauto.
  - unfold Float64. destruct (values f !! k) as [[|v0 l]|]; simpl; try done.
    destruct (ParseFloat v0) as [x [e|]]; simpl; by eauto.
  - unfold Bool. destruct (values f !! k) as [[|v0 l]|]; simpl; try done.
    destruct (String.eqb v0 "true"); simpl; [by eauto|].
    destruct (String.eqb v0 "false"); simpl; by eauto.
Qed.

(** The form after a sequence of calls, by the last assignment. *)
Lemma run_written (cs : list call) (f f' : Form) :
  run cs f = Some f' ->
  f' = match last_written cs (values f) with
       | Some e => set_err f e
       | None => f
       end.
Proof.
  revert f. induction cs as [|c cs IH]; intros f; simpl.
  - by intros [= <-].
  - destruct (exec c f) as [f1|] eqn:Hc; [|done].
    intros Hrun. rewrite (IH _ Hrun).
    rewrite (exec_values _ _ _ Hc). apply exec_written in Hc. subst f1.
    destruct (last_written cs (values f));
      by destruct (written c (values f)).
Qed.

(** Without an assignment of nil in the sequence, the last assignment is
    not nil; without any assignment at the end, no call assigned. *)
Lemma last_written_no_nil (cs : list call) (vals : gmap string (list string)) :
  (forall c, In c cs -> written c vals <> Some None) ->
  last_written cs vals <> Some None.
Proof.
  induction cs as [|c cs IH]; intros Hno; simpl; [done|].
  destruct (last_written cs vals) as [w|] eqn:Hl.
  - apply IH. intros c' Hin. apply Hno. by right.
  - apply Hno. by left.
Qed.

Lemma last_written_None (cs : list call) (vals : gmap string (list string)) :
  last_written cs vals = None -> forall c, In c cs -> written c vals = None.
Proof.
  induction cs as [|c cs IH]; simpl; [done|].
  destruct (last_written cs vals) as [w|]; [done|].
  intros Hw c' [<-|Hin]; [done|]. by apply IH.
Qed.

Lemma last_written_error (cs : list call) (vals : gmap string (list string)) :
  (forall c, In c cs -> written c vals <> Some None) ->
  (exists c e, In c cs /\ written c vals = Some (Some e)) ->
  exists e, last_written cs vals = Some (Some e).
Proof.
  intros Hno (c & e & Hin & Hw).
  pose proof (last_written_no_nil cs vals Hno) as Hnn.
  destruct (last_written cs vals) as [[e'|]|] eqn:Hl; [by eauto|done|].
  rewrite (last_written_None cs vals Hl c Hin) in Hw. done.
Qed.

(** X10 -- An error in the error slot can only be cleared by Slice on an
    absent key with a supported destination type: after every other call
    [Err()] is still non-nil. *)
Theorem error_cleared_only_by_Slice_absent (c : call) (f f' : Form) :
  exec c f = Some f' ->
  Err f <> None ->
  Err f' = None ->
  exists p k, c = CallSlice p k /\ values f !! k = None /\ supported p = true.
Proof.
  intros Hc He He'. apply exec_written in Hc.
  destruct (written c (values f)) as [[e|]|] eqn:Hw; subst f'; try done.
  by apply written_nil.
Qed.

(** X11 -- Checking [Err()] once after a batch of calls: on a form whose
    error slot is clear, and for a batch in which no Slice with a supported
    destination is called on an absent key, [Err()] is nil after the batch
    exactly when every call of the batch, made on its own, leaves it
    nil. *)
Theorem Err_after_batch (cs : list call) (f f' : Form) :
  run cs f = Some f' ->
  Err f = None ->
  (forall p k, In (CallSlice p k) cs -> supported p = true ->
     values f !! k <> None) ->
  (Err f' = None <->
   forall c g, In c cs -> exec c f = Some g -> Err g = None).
Proof.
  intros Hrun Hclear Hno. apply run_written in Hrun.
  assert (forall c, In c cs -> written c (values f) <> Some None) as Hno'.
  { intros c Hin Hw. apply written_nil in Hw as (p & k & -> & Hk & Hp).
    by apply (Hno p k). }
  split.
  - intros He c g Hin Hc. apply exec_written in Hc.
    destruct (written c (values f)) as [[e|]|] eqn:Hw; subst g; try done.
    exfalso.
    destruct (last_written_error cs (values f) Hno') as [e' Hl]; [by eauto|].
    rewrite Hl in Hrun. by subst f'.
  - intros Hall.
    destruct (last_written cs (values f)) as [[e|]|] eqn:Hl; subst f'; try done.
    exfalso.
    assert (exists c, In c cs /\ written c (values f) = Some (Some e))
      as (c & Hin & Hw).
    { clear -Hl. revert Hl. induction cs as [|c cs IH]; simpl; [done|].
      destruct (last_written cs (values f)) as [w|].
      - intros [= ->]. destruct IH as (c' & ? & ?); [done|]. by eauto.
      - intros Hw. by eauto. }
    destruct (written_returns c f _ Hw) as [g Hg].
    pose proof (Hall c g Hin Hg) as Hgn.
    apply exec_written in Hg. rewrite Hw in Hg. by subst g.
Qed.

(** *** Decimal numerals *)

Lemma digit_digit_char (d : Z) :
  0 <= d <= 9 -> strconv.digit (digit_char d) = Some d.
Proof.
  intros Hd.
  assert (d = 0 \/ d = 1 \/ d = 2 \/ d = 3 \/ d = 4 \/
          d = 5 \/ d = 6 \/ d = 7 \/ d = 8 \/ d = 9) as Hc by lia.
  by repeat (destruct Hc as [->|Hc]); subst.
Qed.

Lemma digit_range (c : ascii) (d : Z) :
  strconv.digit c = Some d -> 0 <= d <= 9.
Proof.
  unfold strconv.digit.
  destruct (_ && _) eqn:Hb; [|done]. intros [= <-].
  apply andb_true_iff in Hb as [H1 H2]. lia.
Qed.

Lemma digits_from_ge (ds : list Z) (n : Z) :
  0 <= n -> Forall (fun d => 0 <= d <= 9) ds -> n <= digits_from n ds.
Proof.
  intros Hn Hds. revert n Hn.
  induction Hds as [|d ds Hd _ IH]; intros n Hn; simpl; [lia|].
  etrans; [|apply IH]; lia.
Qed.

(** The loop of ParseUint on a string of digits. *)
Lemma ParseUint_loop_digits (s0 : string) (ds : list Z) (n : Z) :
  Forall (fun d => 0 <= d <= 9) ds -> 0 <= n < 2 ^ 64 ->
  strconv.ParseUint_loop s0 (digits_string ds) n =
    if digits_from n ds <? 2 ^ 64 then (digits_from n ds, None)
    else (2 ^ 64 - 1, Some (NumError "ParseUint" s0 ErrRange)).
Proof.
  intros Hds. revert n.
  induction Hds as [|d ds Hd Hds IH]; intros n Hn; simpl.
  - destruct (n <? 2 ^ 64) eqn:Hlt; [done|]. apply Z.ltb_ge in Hlt. lia.
  - rewrite (digit_digit_char d Hd).
    assert (n * 10 + d <= digits_from (n * 10 + d) ds) as Hge
      by (apply digits_from_ge; [lia|done]).
    change (strconv.maxUint64 / 10 + 1) with 1844674407370955162.
    change (2 ^ 64) with 18446744073709551616 in *.
    destruct (1844674407370955162 <=? n) eqn:Hcut.
    + apply Z.leb_le in Hcut.
      destruct (digits_from (n * 10 + d) ds <? _) eqn:Hlt; [|done].
      apply Z.ltb_lt in Hlt. lia.
    + apply Z.leb_gt in Hcut.
      destruct (Z_lt_dec (n * 10 + d) 18446744073709551616) as [Hfit|Hover].
      * rewrite (Z.mod_small (n * 10 + d)) by lia.
        replace (n * 10 + d <? n * 10) with false by (symmetry; apply Z.ltb_ge; lia).
        replace (18446744073709551616 - 1 <? n * 10 + d) with false
          by (symmetry; apply Z.ltb_ge; lia).
        simpl. apply IH. lia.
      * replace ((n * 10 + d) mod 18446744073709551616)
          with (n * 10 + d - 18446744073709551616).
        2:{ apply Z.mod_unique with (q := 1); lia. }
        replace (n * 10 + d - 18446744073709551616 <? n * 10) with true
          by (symmetry; apply Z.ltb_lt; lia).
        simpl.
        destruct (digits_from (n * 10 + d) ds <? _) eqn:Hlt; [|done].
        apply Z.ltb_lt in Hlt. lia.
Qed.

Lemma ParseUint_digits (ds : list Z) :
  decimal_digits ds ->
  strconv.ParseUint (digits_string ds) =
    if digits_value ds <? 2 ^ 64 then (digits_value ds, None)
    else (2 ^ 64 - 1, Some (NumError "ParseUint" (digits_string ds) ErrRange)).
Proof.
  intros [Hne Hds]. unfold strconv.ParseUint, digits_value.
  destruct (digits_string ds) as [|c s] eqn:Hs.
  - by destruct ds.
  - rewrite <- Hs. by apply ParseUint_loop_digits.
Qed.

Lemma digit_char_digit (c : ascii) (d : Z) :
  strconv.digit c = Some d -> c = digit_char d.
Proof.
  unfold strconv.digit, digit_char.
  destruct (_ && _) eqn:Hb; [|done]. intros [= <-].
  replace (48 + (Z.of_N (N_of_ascii c) - 48)) with (Z.of_N (N_of_ascii c)) by lia.
  by rewrite N2Z.id, ascii_N_embedding.
Qed.

Lemma digit_not_sign (c : ascii) (d : Z) :
  strconv.digit c = Some d -> Ascii.eqb c "+" = false /\ Ascii.eqb c "-" = false.
Proof.
  intros Hc. split; apply Ascii.eqb_neq; intros ->; by vm_compute in Hc.
Qed.

(** The loop of ParseUint ends without error on strings of digits only. *)
Lemma ParseUint_loop_success (s0 s : string) (n : Z) :
  snd (strconv.ParseUint_loop s0 s n) = None ->
  exists ds, Forall (fun d => 0 <= d <= 9) ds /\ s = digits_string ds.
Proof.
  revert n. induction s as [|c s IH]; intros n; simpl.
  - intros _. by exists [].
  - destruct (strconv.digit c) as [d|] eqn:Hc; [|done].
    destruct (_ <=? n); [done|].
    destruct (_ || _); [done|].
    intros Hs. destruct (IH _ Hs) as (ds & Hds & ->).
    exists (d :: ds). split.
    + constructor; [by eapply digit_range|done].
    + simpl. by rewrite (digit_char_digit c d Hc).
Qed.

Lemma ParseUint_success (s : string) :
  snd (strconv.ParseUint s) = None ->
  exists ds, decimal_digits ds /\ s = digits_string ds /\
    digits_value ds < 2 ^ 64 /\ fst (strconv.ParseUint s) = digits_value ds.
Proof.
  intros Hs.
  assert (exists ds, decimal_digits ds /\ s = digits_string ds)
    as (ds & Hds & ->).
  { unfold strconv.ParseUint in Hs. destruct s as [|c s]; [done|].
    destruct (ParseUint_loop_success _ _ _ Hs) as (ds & Hds & Heq).
    exists ds. repeat split; try done. by intros ->. }
  exists ds. repeat split; try done; try apply Hds;
    rewrite (ParseUint_digits ds Hds) in *;
    destruct (digits_value ds <? 2 ^ 64) eqn:Hlt; try done.
  by apply Z.ltb_lt.
Qed.

Lemma digits_value_nonneg (ds : list Z) :
  decimal_digits ds -> 0 <= digits_value ds.
Proof. intros [_ Hds]. by apply digits_from_ge. Qed.

Lemma int64_small (x : Z) : - 2 ^ 63 <= x < 2 ^ 63 -> strconv.int64 x = x.
Proof.
  intros Hx. unfold strconv.int64.
  change (2 ^ 63) with 9223372036854775808 in *.
  change (2 ^ 64) with 18446744073709551616.
  rewrite Z.mod_small; lia.
Qed.

Lemma int64_min : strconv.int64 (- strconv.int64 (2 ^ 63)) = - 2 ^ 63.
Proof. reflexivity. Qed.

(** ParseInt after the sign: [s0] is the whole string, [neg] tells a
    minus sign, [ds] are the digits that follow. *)
Lemma ParseInt_signed (sg : sign) (ds : list Z) :
  decimal_digits ds ->
  strconv.ParseInt (signed_string sg ds) =
    if (- 2 ^ 63 <=? signed_value sg ds) && (signed_value sg ds <? 2 ^ 63)
    then (signed_value sg ds, None)
    else (match sg with Minus => - 2 ^ 63 | _ => 2 ^ 63 - 1 end,
          Some (NumError "ParseInt" (signed_string sg ds) ErrRange)).
Proof.
  intros Hds. pose proof (digits_value_nonneg ds Hds) as H0.
  pose proof (ParseUint_digits ds Hds) as HU.
  assert (exists c s, digits_string ds = String.String c s /\
            Ascii.eqb c "+" = false /\ Ascii.eqb c "-" = false)
    as (c & s & Hcs & Hplus & Hminus).
  { destruct Hds as [Hne Hds]. destruct Hds as [|d ds Hd _]; [done|].
    eexists _, _. split; [done|]. eapply digit_not_sign. by apply digit_digit_char. }
  change (2 ^ 63) with 9223372036854775808 in *.
  change (2 ^ 64) with 18446744073709551616 in *.
  assert (forall neg : bool,
    match strconv.ParseUint (digits_string ds) with
    | (un, err) =>
        match err with
        | Some (NumError _ _ ErrSyntax) =>
            (0, Some (strconv.syntaxError strconv.fnParseInt (signed_string sg ds)))
        | _ =>
            if negb neg && (9223372036854775808 <=? un)
            then (9223372036854775808 - 1,
                  Some (strconv.rangeError strconv.fnParseInt (signed_string sg ds)))
            else if neg && (9223372036854775808 <? un)
            then (- 9223372036854775808,
                  Some (strconv.rangeError strconv.fnParseInt (signed_string sg ds)))
            else (if neg then strconv.int64 (- strconv.int64 un)
                  else strconv.int64 un, None)
        end
    end =
    let v := if neg then - digits_value ds else digits_value ds in
    if (- 9223372036854775808 <=? v) && (v <? 9223372036854775808)
    then (v, None)
    else (if neg then - 9223372036854775808 else 9223372036854775808 - 1,
          Some (NumError "ParseInt" (signed_string sg ds) ErrRange))) as Hcore.
  { intros neg. rewrite HU. cbv zeta.
    destruct (digits_value ds <? 18446744073709551616) eqn:Hfit.
    - apply Z.ltb_lt in Hfit. destruct neg; simpl negb; cbv iota beta; simpl andb.
      + destruct (9223372036854775808 <? digits_value ds) eqn:Hc.
        * apply Z.ltb_lt in Hc.
          replace (- 9223372036854775808 <=? - digits_value ds) with false
            by (symmetry; apply Z.leb_gt; lia). done.
        * apply Z.ltb_ge in Hc.
          replace (- 9223372036854775808 <=? - digits_value ds) with true
            by (symmetry; apply Z.leb_le; lia).
          replace (- digits_value ds <? 9223372036854775808) with true
            by (symmetry; apply Z.ltb_lt; lia).
          simpl. f_equal.
          destruct (Z.eq_dec (digits_value ds) 9223372036854775808) as [->|Hne].
          { reflexivity. }
          rewrite (int64_small (digits_value ds)) by (change (2 ^ 63) with 9223372036854775808; lia).
          apply int64_small. change (2 ^ 63) with 9223372036854775808. lia.
      + destruct (9223372036854775808 <=? digits_value ds) eqn:Hc.
        * apply Z.leb_le in Hc.
          replace (digits_value ds <? 9223372036854775808) with false
            by (symmetry; apply Z.ltb_ge; lia).
          by rewrite andb_false_r.
        * apply Z.leb_gt in Hc.
          replace (digits_value ds <? 9223372036854775808) with true
            by (symmetry; apply Z.ltb_lt; lia).
          replace (- 9223372036854775808 <=? digits_value ds) with true
            by (symmetry; apply Z.leb_le; lia).
          simpl. f_equal. apply int64_small.
          change (2 ^ 63) with 9223372036854775808. lia.
    - apply Z.ltb_ge in Hfit. destruct neg; simpl.
      + replace (- 9223372036854775808 <=? - digits_value ds) with false
          by (symmetry; apply Z.leb_gt; lia). done.
      + replace (digits_value ds <? 9223372036854775808) with false
          by (symmetry; apply Z.ltb_ge; lia).
        by rewrite andb_false_r. }
  destruct sg; unfold signed_value; simpl signed_string in *.
  - specialize (Hcore false). unfold strconv.ParseInt.
    rewrite Hcs in *. rewrite Hplus, Hminus. exact Hcore.
  - specialize (Hcore false). unfold strconv.ParseInt.
    change (Ascii.eqb "+" "+") with true. cbv iota beta. exact Hcore.
  - specialize (Hcore true). unfold strconv.ParseInt.
    change (Ascii.eqb "-" "+") with false. change (Ascii.eqb "-" "-") with true.
    cbv iota beta. exact Hcore.
Qed.

(** An error of ParseUint comes with the value 0 (syntax) or with the
    largest uint64 (range). *)
Lemma ParseUint_loop_error (s0 s : string) (n : Z) (e : error) :
  snd (strconv.ParseUint_loop s0 s n) = Some e ->
  (fst (strconv.ParseUint_loop s0 s n) = 0 /\
     e = NumError "ParseUint" s0 ErrSyntax) \/
  (fst (strconv.ParseUint_loop s0 s n) = 2 ^ 64 - 1 /\
     e = NumError "ParseUint" s0 ErrRange).
Proof.
  revert n. induction s as [|c s IH]; intros n; simpl; [done|].
  destruct (strconv.digit c) as [d|]; [|by intros [= <-]; left].
  destruct (_ <=? n); [by intros [= <-]; right|].
  destruct (_ || _); [by intros [= <-]; right|].
  by apply IH.
Qed.

Lemma ParseUint_error (s : string) (e : error) :
  snd (strconv.ParseUint s) = Some e ->
  (fst (strconv.ParseUint s) = 0 /\ e = NumError "ParseUint" s ErrSyntax) \/
  (fst (strconv.ParseUint s) = 2 ^ 64 - 1 /\ e = NumError "ParseUint" s ErrRange).
Proof.
  unfold strconv.ParseUint. destruct s as [|c s].
  - intros [= <-]. by left.
  - by apply ParseUint_loop_error.
Qed.

(** ParseInt ends without error on optionally signed decimal numerals
    only, and with the integer they denote. *)
Lemma ParseInt_success (s : string) :
  snd (strconv.ParseInt s) = None ->
  exists sg ds, decimal_digits ds /\ s = signed_string sg ds /\
    - 2 ^ 63 <= signed_value sg ds < 2 ^ 63 /\
    fst (strconv.ParseInt s) = signed_value sg ds.
Proof.
  intros Hs.
  assert (exists sg ds, decimal_digits ds /\ s = signed_string sg ds)
    as (sg & ds & Hds & ->).
  { unfold strconv.ParseInt in Hs. destruct s as [|c rest]; [done|].
    assert (forall (neg : bool) (body : string),
      snd (let '(un, err) := strconv.ParseUint body in
           match err with
           | Some (NumError _ _ ErrSyntax) =>
               (0, Some (strconv.syntaxError strconv.fnParseInt (String.String c rest)))
           | _ =>
               if negb neg && (2 ^ 63 <=? un)
               then (2 ^ 63 - 1,
                     Some (strconv.rangeError strconv.fnParseInt (String.String c rest)))
               else if neg && (2 ^ 63 <? un)
               then (- 2 ^ 63,
                     Some (strconv.rangeError strconv.fnParseInt (String.String c rest)))
               else (if neg then strconv.int64 (- strconv.int64 un)
                     else strconv.int64 un, None)
           end) = None ->
      snd (strconv.ParseUint body) = None) as Hbody.
    { intros neg body.
      pose proof (ParseUint_error body) as He.
      destruct (strconv.ParseUint body) as [un [e|]]; [|done].
      destruct (He e eq_refl) as [[_ ->]|[Hun ->]]; [done|].
      simpl in Hun. subst un. by destruct neg. }
    destruct (Ascii.eqb c "+") eqn:Hplus.
    - apply Ascii.eqb_eq in Hplus as ->.
      apply Hbody, ParseUint_success in Hs as (ds & Hds & -> & _).
      by exists Plus, ds.
    - destruct (Ascii.eqb c "-") eqn:Hminus.
      + apply Ascii.eqb_eq in Hminus as ->.
        apply Hbody, ParseUint_success in Hs as (ds & Hds & -> & _).
        by exists Minus, ds.
      + apply Hbody, ParseUint_success in Hs as (ds & Hds & -> & _).
        by exists NoSign, ds. }
  exists sg, ds. rewrite (ParseInt_signed sg ds Hds) in *.
  destruct (- 2 ^ 63 <=? signed_value sg ds) eqn:H1;
    destruct (signed_value sg ds <? 2 ^ 63) eqn:H2; try done.
  apply Z.leb_le in H1. apply Z.ltb_lt in H2. simpl.
  split; [done|]. split; [done|]. split; [by split|done].
Qed.

(** X12 -- Uint64 on a first value that is a decimal numeral (digits
    only, at least one): below 2^64 the getter returns the number the
    digits denote and leaves the form as it was; from 2^64 on it returns
    the default value and records the range error of ParseUint, which
    [Err()] returns after the call. *)
Theorem Uint64_reads_decimal (f : Form) (paramKey : string) (ds : list Z)
    (rest : list string) (defaultValue : Z) :
  values f !! paramKey = Some (digits_string ds :: rest) ->
  decimal_digits ds ->
  Uint64 f paramKey defaultValue =
    (if digits_value ds <? 2 ^ 64 then Return (digits_value ds) f
     else Return defaultValue
            (set_err f (Some (NumError "ParseUint" (digits_string ds) ErrRange)))) /\
  observed (Uint64 f paramKey defaultValue) =
    (if digits_value ds <? 2 ^ 64 then Some (digits_value ds, Err f)
     else Some (defaultValue,
                Some (NumError "ParseUint" (digits_string ds) ErrRange))).
Proof.
  intros H Hds. unfold Uint64. rewrite H, (ParseUint_digits ds Hds).
  by destruct (digits_value ds <? 2 ^ 64).
Qed.

(** X13 -- Int64 on a first value that is a decimal numeral with an
    optional sign + or -: when the integer it denotes is an int64 the
    getter returns it and leaves the form as it was (this includes
    -2^63); otherwise it returns the default value and records the range
    error of ParseInt, which [Err()] returns after the call. *)
Theorem Int64_reads_signed_decimal (f : Form) (paramKey : string) (sg : sign)
    (ds : list Z) (rest : list string) (defaultValue : Z) :
  values f !! paramKey = Some (signed_string sg ds :: rest) ->
  decimal_digits ds ->
  Int64 f paramKey defaultValue =
    (if (- 2 ^ 63 <=? signed_value sg ds) && (signed_value sg ds <? 2 ^ 63)
     then Return (signed_value sg ds) f
     else Return defaultValue
            (set_err f (Some (NumError "ParseInt" (signed_string sg ds) ErrRange)))) /\
  observed (Int64 f paramKey defaultValue) =
    (if (- 2 ^ 63 <=? signed_value sg ds) && (signed_value sg ds <? 2 ^ 63)
     then Some (signed_value sg ds, Err f)
     else Some (defaultValue,
                Some (NumError "ParseInt" (signed_string sg ds) ErrRange))).
Proof.
  intros H Hds. unfold Int64. rewrite H, (ParseInt_signed sg ds Hds).
  by destruct (_ && _).
Qed.

(** X14 -- The integer getters accept nothing else: when Uint64, or
    Int64, called on a present key of a form with a clear error slot,
    leaves the slot clear, the first value is a decimal numeral (with an
    optional sign for Int64) and the value returned is the number it
    denotes, within the range of the type. *)
Theorem integer_getters_sound (f : Form) (paramKey v0 : string)
    (rest : list string) :
  values f !! paramKey = Some (v0 :: rest) ->
  Err f = None ->
  (forall d a f', Uint64 f paramKey d = Return a f' -> Err f' = None ->
     exists ds, decimal_digits ds /\ v0 = digits_string ds /\
       a = digits_value ds /\ 0 <= a < 2 ^ 64) /\
  (forall d a f', Int64 f paramKey d = Return a f' -> Err f' = None ->
     exists sg ds, decimal_digits ds /\ v0 = signed_string sg ds /\
       a = signed_value sg ds /\ - 2 ^ 63 <= a < 2 ^ 63).
Proof.
  intros H Hclear. split; intros d a f'.
  - unfold Uint64. rewrite H.
    pose proof (ParseUint_success v0) as Hs.
    destruct (strconv.ParseUint v0) as [x [e|]]; simpl in *; intros [= <- <-];
      [done|]. intros _.
    destruct (Hs eq_refl) as (ds & Hds & -> & Hlt & ->).
    exists ds. repeat split; try done; try apply Hds.
    by apply digits_value_nonneg.
  - unfold Int64. rewrite H.
    pose proof (ParseInt_success v0) as Hs.
    destruct (strconv.ParseInt v0) as [x [e|]]; simpl in *; intros [= <- <-];
      [done|]. intros _.
    destruct (Hs eq_refl) as (sg & ds & Hds & -> & Hr & ->).
    exists sg, ds. repeat split; try done; try apply Hds; apply Hr.
Qed.

(** X15 -- What Uint64 reads below 2^63, Int64 reads as well: when Uint64
    on a present key of a form with a clear error slot returns a value
    below 2^63 and leaves the slot clear, Int64 on that key returns the
    same value and leaves the form as it was. *)
Theorem Int64_agrees_with_Uint64 (f : Form) (paramKey v0 : string)
    (rest : list string) (du di a : Z) (f' : Form) :
  values f !! paramKey = Some (v0 :: rest) ->
  Err f = None ->
  Uint64 f paramKey du = Return a f' ->
  Err f' = None ->
  a < 2 ^ 63 ->
  Int64 f paramKey di = Return a f.
Proof.
  intros H Hclear HU Hclear' Ha. revert HU. unfold Uint64, Int64. rewrite H.
  pose proof (ParseUint_success v0) as Hs.
  destruct (strconv.ParseUint v0) as [x [e|]]; simpl in *; intros [= <- <-];
    [done|].
  destruct (Hs eq_refl) as (ds & Hds & -> & Hlt & ->).
  pose proof (digits_value_nonneg ds Hds) as H0.
  rewrite (ParseInt_signed NoSign ds Hds
             : strconv.ParseInt (digits_string ds) = _).
  simpl signed_value.
  replace (- 2 ^ 63 <=? digits_value ds) with true
    by (symmetry; apply Z.leb_le; change (2 ^ 63) with 9223372036854775808; lia).
  replace (digits_value ds <? 2 ^ 63) with true
    by (symmetry; by apply Z.ltb_lt).
  done.
Qed.

(** *** No panic on parsed requests *)


End Form.

Arguments PtrString {float64 other} vs.
Arguments PtrInt64 {float64 other} vs.
Arguments PtrFloat64 {float64 other} vs.
Arguments PtrUint64 {float64 other} vs.
Arguments PtrBool {float64 other} vs.
Arguments PtrOther {float64 other} T v.
Arguments Slice {float64} ParseFloat {other} f p paramKey.
Arguments Float64 {float64} ParseFloat f paramKey defaultValue.
Arguments clearSlice {float64 other} p.
Arguments cleared {float64 other} p.
Arguments converted {float64} ParseFloat {other} p paramKey mapVals.
Arguments elem_error {float64} ParseFloat {other} p paramKey x.
Arguments supported {float64 other} p.
Arguments converting {float64 other} p.
Arguments CallInt64 {float64 other} paramKey defaultValue.
Arguments CallUint64 {float64 other} paramKey defaultValue.
Arguments CallString {float64 other} paramKey defaultValue.
Arguments CallFloat64 {float64 other} paramKey defaultValue.
Arguments CallBool {float64 other} paramKey defaultValue.
Arguments CallSlice {float64 other} p paramKey.
Arguments CallErr {float64 other}.
Arguments exec {float64} ParseFloat {other} c f.
Arguments run {float64} ParseFloat {other} cs f.
Arguments written {float64} ParseFloat {other} c vals.
Arguments last_written {float64} ParseFloat {other} cs vals.
Arguments is_nil {float64 other} p.
Arguments Call {float64 other} c.
Arguments SliceNil {float64 other} T paramKey.
Arguments nil_pointer {float64 other} i.
Arguments invoke {float64} ParseFloat {other} i f.
Arguments invoke_all {float64} ParseFloat {other} l f.

(** ** The model at work *)

Local Abbreviation F64 := IntegerFloat.float64.
Local Abbreviation parseF := IntegerFloat.ParseFloat.
Local Abbreviation ptr := (slicePtr F64 unit).

(** *** strconv *)

Example ParseInt_42 : strconv.ParseInt "42" = (42, None).
Proof. reflexivity. Qed.

Example ParseInt_abc :
  strconv.ParseInt "abc" = (0, Some (NumError "ParseInt" "abc" ErrSyntax)).
Proof. reflexivity. Qed.

Example ParseInt_min :
  strconv.ParseInt "-9223372036854775808" = (- 2 ^ 63, None).
Proof. vm_compute. reflexivity. Qed.

Example ParseInt_over :
  strconv.ParseInt "9223372036854775808"
  = (2 ^ 63 - 1, Some (NumError "ParseInt" "9223372036854775808" ErrRange)).
Proof. vm_compute. reflexivity. Qed.

Example ParseUint_max :
  strconv.ParseUint "18446744073709551615" = (2 ^ 64 - 1, None).
Proof. vm_compute. reflexivity. Qed.

Example ParseUint_over :
  snd (strconv.ParseUint "18446744073709551616")
  = Some (NumError "ParseUint" "18446744073709551616" ErrRange).
Proof. vm_compute. reflexivity. Qed.

Example ParseUint_sign :
  snd (strconv.ParseUint "+1") = Some (NumError "ParseUint" "+1" ErrSyntax).
Proof. reflexivity. Qed.

Example ParseFloat_12 :
  parseF "12" = (S754_finite false 6755399441055744 (-49), None).
Proof. vm_compute. reflexivity. Qed.

Example ParseFloat_abc :
  snd (parseF "abc") = Some (NumError "ParseFloat" "abc" ErrSyntax).
Proof. vm_compute. reflexivity. Qed.

(** *** The getters on the sample request *)

Example Int64_n : Int64 request "n" 0 = Return 42 request.
Proof. vm_compute. reflexivity. Qed.

Example Int64_bad :
  Int64 request "bad" 7 = Return 7 failed_request.
Proof. vm_compute. reflexivity. Qed.

Example Bool_b : Bool request "b" false = Return true request.
Proof. vm_compute. reflexivity. Qed.

Example Bool_off : Bool request "off" true = Return false request.
Proof. vm_compute. reflexivity. Qed.

Example Bool_maybe :
  Bool request "maybe" false
  = Return false (mkForm request_values (Some (ErrNotBoolean "maybe"))).
Proof. vm_compute. reflexivity. Qed.

Example Slice_xs :
  Slice parseF request (PtrInt64 (Some [5]) : ptr) "xs"
  = (PtrInt64 None, mkForm request_values (Some (NumError "ParseInt" "x" ErrSyntax))).
Proof. vm_compute. reflexivity. Qed.

Example Slice_ys :
  Slice parseF request (PtrInt64 None : ptr) "ys"
  = (PtrInt64 (Some [1; 2; 3]), request).
Proof. vm_compute. reflexivity. Qed.

Example Slice_flags :
  Slice parseF request (PtrBool None : ptr) "flags"
  = (PtrBool (Some [true; false; true]), request).
Proof. vm_compute. reflexivity. Qed.

Example Slice_missing_resets :
  Slice parseF failed_request (PtrString (Some ["old"]) : ptr) "missing"
  = (PtrString None, request).
Proof. vm_compute. reflexivity. Qed.

(** C1 -- Bool on the first value "maybe", which is no boolean token, with
    the default value true: the error slot is set, and the call returns
    false, which is not the default value it was given. *)
Theorem invalid_Bool_returns_false_not_default :
  Bool request "maybe" true
  = Return false (mkForm request_values (Some (ErrNotBoolean "maybe"))).
Proof. vm_compute. reflexivity. Qed.

(** C8 -- The constants of the status-code table have the values 200,
    301, 400, 401, 403 and 500, and the table declares these six
    constants and no other. *)
Theorem status_code_values :
  StatusOK = 200 /\ StatusMovedPermanently = 301 /\ StatusBadRequest = 400 /\
  StatusUnauthorized = 401 /\ StatusForbidden = 403 /\
  StatusInternalServerError = 500 /\
  status_constants =
    [ ("StatusOK", 200); ("StatusMovedPermanently", 301);
      ("StatusBadRequest", 400); ("StatusUnauthorized", 401);
      ("StatusForbidden", 403); ("StatusInternalServerError", 500) ].
Proof. repeat split. Qed.

Example request_nonempty : nonempty_values request.
Proof. apply (bool_decide_unpack _). vm_compute. exact I. Qed.

Example Int64_min_int64 :
  Int64 (mkForm {["t" := ["-9223372036854775808"]]} None) "t" 0
  = Return (- 2 ^ 63) (mkForm {["t" := ["-9223372036854775808"]]} None).
Proof. vm_compute. reflexivity. Qed.

(** C10, as it was worded -- String on a key that is present with an
    empty list of values does not return: [vals[0]] is out of range and
    the call panics. *)
Lemma String_panics_on_empty_list :
  values (mkForm {["k" := []]} None) !! "k" = Some [] /\
  String (mkForm {["k" := []]} None) "k" "default" = Panics /\
  ~ (exists v f', String (mkForm {["k" := []]} None) "k" "default" = Return v f').
Proof.
  split; [vm_compute; reflexivity|].
  split; [vm_compute; reflexivity|].
  intros (v & f' & H). vm_compute in H. discriminate H.
Qed.

(** *** The theorems at concrete inputs *)

Lemma absent_key_returns_default_witness :
  values request !! "missing" = None /\
  (Int64 request "missing" 7 = Return 7 request /\
   Uint64 request "missing" 8 = Return 8 request /\
   String request "missing" "none" = Return "none" request /\
   Float64 parseF request "missing" (S754_zero false)
     = Return (S754_zero false) request /\
   Bool request "missing" true = Return true request).
Proof.
  split; [vm_compute; reflexivity|].
  apply (absent_key_returns_default F64 parseF request "missing").
  vm_compute; reflexivity.
Defined.

Lemma Bool_tokens_witness :
  values request !! "b" = Some ["true"] /\
  (("true" = "true" -> Bool request "b" false = Return true request) /\
   ("true" = "false" -> Bool request "b" false = Return false request) /\
   ("true" <> "true" -> "true" <> "false" ->
      exists b f', Bool request "b" false = Return b f' /\
        Err f' = Some (ErrNotBoolean "b") /\ values f' = values request)).
Proof.
  split; [vm_compute; reflexivity|].
  apply (Bool_tokens request "b" "true" [] false).
  vm_compute; reflexivity.
Defined.

Lemma String_returns_first_value_witness :
  values request !! "n" = Some ["42"; "7"] /\
  String request "n" "none" = Return "42" request.
Proof.
  split; [vm_compute; reflexivity|].
  apply (String_returns_first_value request "n" "42" ["7"] "none").
  vm_compute; reflexivity.
Defined.

Lemma Slice_conversion_failure_witness :
  exists pre x post e,
    ["1"; "2"; "x"] = (pre ++ x :: post)%list /\
    Forall (fun y => elem_error parseF (PtrInt64 (Some [5]) : ptr) "xs" y = None) pre /\
    elem_error parseF (PtrInt64 (Some [5]) : ptr) "xs" x = Some e /\
    Slice parseF request (PtrInt64 (Some [5]) : ptr) "xs"
    = (PtrInt64 None, set_err request (Some e)) /\
    is_nil (fst (Slice parseF request (PtrInt64 (Some [5]) : ptr) "xs")) = true /\
    Err (snd (Slice parseF request (PtrInt64 (Some [5]) : ptr) "xs")) = Some e /\
    values (snd (Slice parseF request (PtrInt64 (Some [5]) : ptr) "xs"))
    = values request.
Proof.
  apply (Slice_conversion_failure F64 parseF unit request
           (PtrInt64 (Some [5])) "xs" ["1"; "2"; "x"]).
  - vm_compute; reflexivity.
  - reflexivity.
  - apply Exists_cons_tl, Exists_cons_tl, Exists_cons_hd.
    vm_compute; discriminate.
Defined.

Lemma Slice_all_converted_witness :
  Slice parseF request (PtrBool (Some [false]) : ptr) "flags"
  = (PtrBool (Some [true; false; true]), request).
Proof.
  destruct (Slice_all_converted F64 parseF unit request
              (PtrBool (Some [false])) "flags" ["true"; "false"; "true"])
    as (_ & _ & H).
  - vm_compute; reflexivity.
  - reflexivity.
  - repeat constructor.
  - apply (H (Some [false]) [true; false; true] eq_refl).
    constructor; [by left|]. constructor; [by right|].
    constructor; [by left|]. constructor.
Defined.

Lemma Slice_absent_key_witness :
  Slice parseF failed_request (PtrBool (Some [true]) : ptr) "missing"
  = (PtrBool None, set_err failed_request None) /\
  Err (snd (Slice parseF failed_request (PtrBool (Some [true]) : ptr) "missing"))
  = None.
Proof.
  apply (Slice_absent_key F64 parseF unit failed_request
           (PtrBool (Some [true])) "missing").
  - vm_compute; reflexivity.
  - reflexivity.
Defined.

Lemma last_error_wins_witness :
  Err (mkForm request_values (Some (ErrNotBoolean "maybe")))
  = match
      last_written parseF
        [CallInt64 "bad" 7; CallSlice (PtrInt64 None : ptr) "missing";
         CallBool "maybe" true; CallString "n" ""; CallInt64 "n" 0; CallErr]
        (values request)
    with
    | Some e => e
    | None => Err request
    end /\
  values (mkForm request_values (Some (ErrNotBoolean "maybe"))) = values request.
Proof.
  apply (last_error_wins F64 parseF unit
           [CallInt64 "bad" 7; CallSlice (PtrInt64 None) "missing";
            CallBool "maybe" true; CallString "n" ""; CallInt64 "n" 0; CallErr]
           request (mkForm request_values (Some (ErrNotBoolean "maybe")))).
  vm_compute; reflexivity.
Defined.


Lemma results_stable_in_sequence_witness :
  run parseF [CallInt64 "bad" 7; CallSlice (PtrInt64 None : ptr) "xs"] request
  = Some (mkForm request_values (Some (NumError "ParseInt" "x" ErrSyntax))) /\
  returned (Int64 (mkForm request_values (Some (NumError "ParseInt" "x" ErrSyntax)))
              "n" 0)
  = returned (Int64 request "n" 0).
Proof.
  split; [vm_compute; reflexivity|].
  destruct (results_stable_in_sequence F64 parseF unit
              [CallInt64 "bad" 7; CallSlice (PtrInt64 None) "xs"] request
              (mkForm request_values (Some (NumError "ParseInt" "x" ErrSyntax)))
              "n") as [H _].
  - vm_compute; reflexivity.
  - apply H.
Defined.

Lemma numeric_getters_success_witness :
  values failed_request !! "n" = Some ["42"; "7"] /\
  Int64 failed_request "n" 0
  = Return (fst (strconv.ParseInt "42")) failed_request.
Proof.
  split; [vm_compute; reflexivity|].
  destruct (numeric_getters_success F64 parseF failed_request "n" "42" ["7"]
              0 0 (S754_zero false)) as [H _].
  - vm_compute; reflexivity.
  - apply H. reflexivity.
Defined.

Lemma scalar_getters_first_value_only_witness :
  observed (Int64 request "n" 0)
  = observed (Int64 (mkForm {["n" := ["42"]]} None) "n" 0).
Proof.
  destruct (scalar_getters_first_value_only F64 parseF request
              (mkForm {["n" := ["42"]]} None) "n" "42" ["7"] []) as [H _].
  - vm_compute; reflexivity.
  - vm_compute; reflexivity.
  - reflexivity.
  - apply H.
Defined.

Lemma scalar_getter_is_head_of_Slice_witness :
  Slice parseF request (PtrInt64 None : ptr) "ys"
  = (PtrInt64 (Some [1; 2; 3]), request) /\
  Int64 request "ys" 0 = Return 1 request.
Proof.
  split; [vm_compute; reflexivity|].
  destruct (scalar_getter_is_head_of_Slice F64 parseF unit request "ys")
    as (_ & H & _).
  apply (H None 1 [2; 3] request 0). vm_compute; reflexivity.
Defined.

Lemma Slice_fails_where_scalar_getter_fails_witness :
  Int64 request "bad" 7 = Return 7 failed_request /\
  Slice parseF request (PtrInt64 (Some [5]) : ptr) "bad"
  = (PtrInt64 None, failed_request).
Proof.
  split; [vm_compute; reflexivity|].
  destruct (Slice_fails_where_scalar_getter_fails F64 parseF unit request
              "bad" "abc" []) as (H & _).
  - vm_compute; reflexivity.
  - reflexivity.
  - apply (H 7 7 failed_request (NumError "ParseInt" "abc" ErrSyntax)).
    + vm_compute; reflexivity.
    + reflexivity.
Defined.

Lemma Slice_nil_iff_failure_witness :
  is_nil (fst (Slice parseF request (PtrInt64 (Some [5]) : ptr) "xs")) = true <->
  Exists (fun x => elem_error parseF (PtrInt64 (Some [5]) : ptr) "xs" x <> None)
    ["1"; "2"; "x"].
Proof.
  destruct (Slice_nil_iff_failure F64 parseF unit request
              (PtrInt64 (Some [5])) "xs" ["1"; "2"; "x"]) as (H & _).
  - vm_compute; reflexivity.
  - reflexivity.
  - apply H.
Defined.

Lemma error_cleared_only_by_Slice_absent_witness :
  exists (p : ptr) k,
    CallSlice (PtrString None) "missing" = CallSlice p k /\
    values failed_request !! k = None /\ supported p = true.
Proof.
  apply (error_cleared_only_by_Slice_absent F64 parseF unit
           (CallSlice (PtrString None) "missing") failed_request request).
  - vm_compute; reflexivity.
  - vm_compute; discriminate.
  - reflexivity.
Defined.

Lemma Err_after_batch_witness :
  Err request = None <->
  forall (c : call F64 unit) g,
    In c [CallInt64 "n" 0; CallBool "b" false; CallSlice (PtrInt64 None) "ys"] ->
    exec parseF c request = Some g -> Err g = None.
Proof.
  apply (Err_after_batch F64 parseF unit
           [CallInt64 "n" 0; CallBool "b" false; CallSlice (PtrInt64 None) "ys"]
           request request).
  - vm_compute; reflexivity.
  - reflexivity.
  - intros p k [H|[H|[H|[]]]]; try discriminate H.
    injection H as <- <-. intros _. vm_compute; discriminate.
Defined.

Lemma Uint64_reads_decimal_witness :
  observed (Uint64 (mkForm {["big" := ["18446744073709551616"]]} None) "big" 7)
  = Some (7, Some (NumError "ParseUint" "18446744073709551616" ErrRange)).
Proof.
  apply (Uint64_reads_decimal
           (mkForm {["big" := ["18446744073709551616"]]} None) "big"
           [1; 8; 4; 4; 6; 7; 4; 4; 0; 7; 3; 7; 0; 9; 5; 5; 1; 6; 1; 6] [] 7).
  - vm_compute; reflexivity.
  - split; [discriminate | repeat constructor; lia].
Defined.

Lemma Int64_reads_signed_decimal_witness :
  observed (Int64 (mkForm {["big" := ["9223372036854775808"]]} None) "big" 7)
  = Some (7, Some (NumError "ParseInt" "9223372036854775808" ErrRange)).
Proof.
  apply (Int64_reads_signed_decimal
           (mkForm {["big" := ["9223372036854775808"]]} None) "big" NoSign
           [9; 2; 2; 3; 3; 7; 2; 0; 3; 6; 8; 5; 4; 7; 7; 5; 8; 0; 8] [] 7).
  - vm_compute; reflexivity.
  - split; [discriminate | repeat constructor; lia].
Defined.

Lemma integer_getters_sound_witness :
  exists sg ds, decimal_digits ds /\ "42" = signed_string sg ds /\
    42 = signed_value sg ds /\ - 2 ^ 63 <= 42 < 2 ^ 63.
Proof.
  destruct (integer_getters_sound request "n" "42" ["7"]) as (_ & H).
  - vm_compute; reflexivity.
  - reflexivity.
  - apply (H 0 42 request); vm_compute; reflexivity.
Defined.

Lemma Int64_agrees_with_Uint64_witness :
  Uint64 request "n" 0 = Return 42 request /\
  Int64 request "n" 1 = Return 42 request.
Proof.
  split; [vm_compute; reflexivity|].
  apply (Int64_agrees_with_Uint64 request "n" "42" ["7"] 0 1 42 request).
  - vm_compute; reflexivity.
  - reflexivity.
  - vm_compute; reflexivity.
  - reflexivity.
  - lia.
Defined.

